(** * Sharings: a shallow embedding of [pkg/sharings/sharings.go]

    The Go code manipulates a [*Sharing] whose recipient associations are
    pointers ([[]*SharingRecipient]); the objects behind those pointers are
    mutated in place.  The embedding therefore keeps an explicit memory of
    [SharingRecipient] objects, addressed by locations, next to the contents
    of the document store and a record of the store calls that were made.
    A Go function becomes a computation in a small monad over that world,
    whose second outcome is a run-time panic (nil dereference, index out
    of range). *)

From stdpp Require Import base option strings list gmap.
From Stdlib Require Import Ascii.

Set Default Proof Using "Type".

(** ** Package [consts] *)

Module consts.
(** Modelled from the spec: the sharing-type constants of package
    [consts], which is not part of the sources at hand; the spec lists
    their wire values in its section on external interfaces. *)
Definition OneShotSharing : string := "one-shot".
Definition MasterSlaveSharing : string := "master-slave".
Definition MasterMasterSharing : string := "master-master".

(** Modelled from the spec: the status given to a recipient association
    at owner-side creation, [consts.PendingSharingStatus]. *)
Definition PendingSharingStatus : string := "pending".
End consts.

(** ** Package [jsonapi] *)

Module jsonapi.
(** Modelled from the spec: the resource identifier, relationship and
    link types of package [jsonapi], with the fields that
    [sharings.go] reads and writes. *)
Record ResourceIdentifier := mkResourceIdentifier {
  ID : string;
  Type_ : string
}.

Record Relationship := mkRelationship {
  Data : list ResourceIdentifier
}.

Record LinksList := mkLinksList {
  Self : string
}.

Abbreviation RelationshipMap := (gmap string Relationship).
End jsonapi.

(** ** The [couchdb.Doc] interface *)

(** [Sharing] and [Recipient] both implement it; the store reads a document
    through [ID], [Rev] and [DocType] and writes it through [SetID] and
    [SetRev] only. *)
Class Doc (D : Type) := {
  ID : D → string;
  Rev : D → string;
  DocType : D → string;
  SetID : string → D → D;
  SetRev : string → D → D
}.

(** A location is the address of a [SharingRecipient] object; a location
    that the memory does not map stands for Go's [nil]. *)
Abbreviation loc := positive.

Section sharings.

(** The [Recipient] entity lives in a sibling file of the package; the
    code only needs its zero value and its [couchdb.Doc] methods. *)
Context {Recipient : Type} `{!Doc Recipient}.

(** [permissions.Set], produced by the scope parser and stored as is. *)
Context {PermSet : Type}.

(** *** Data model *)

Record SharingRecipient := mkSharingRecipient {
  Status : string;
  AccessToken : string;
  RefreshToken : string;
  RefRecipient : jsonapi.ResourceIdentifier;
  recipient : option Recipient
}.

Record Sharing := mkSharing {
  SID : string;
  SRev : string;
  Type_ : string;
  Owner : bool;
  Desc : string;
  SharingID : string;
  SharingType : string;
  Permissions : option PermSet;
  SRecipients : list loc
}.

(** Go slices are lists here: a nil slice and an empty one are both the
    empty list (they have the same length, range the same way and are
    both dropped by [omitempty]). *)

(** Field assignments. *)
Definition with_recipient (r : option Recipient) (c : SharingRecipient) :=
  mkSharingRecipient (Status c) (AccessToken c) (RefreshToken c)
                     (RefRecipient c) r.

Definition with_Status (st : string) (c : SharingRecipient) :=
  mkSharingRecipient st (AccessToken c) (RefreshToken c)
                     (RefRecipient c) (recipient c).

Definition with_SID (id : string) (s : Sharing) :=
  mkSharing id (SRev s) (Type_ s) (Owner s) (Desc s) (SharingID s)
            (SharingType s) (Permissions s) (SRecipients s).

Definition with_SRev (rev : string) (s : Sharing) :=
  mkSharing (SID s) rev (Type_ s) (Owner s) (Desc s) (SharingID s)
            (SharingType s) (Permissions s) (SRecipients s).

Definition with_SRecipients (l : list loc) (s : Sharing) :=
  mkSharing (SID s) (SRev s) (Type_ s) (Owner s) (Desc s) (SharingID s)
            (SharingType s) (Permissions s) l.

Definition with_Owner (b : bool) (s : Sharing) :=
  mkSharing (SID s) (SRev s) (Type_ s) b (Desc s) (SharingID s)
            (SharingType s) (Permissions s) (SRecipients s).

Definition with_SharingID (id : string) (s : Sharing) :=
  mkSharing (SID s) (SRev s) (Type_ s) (Owner s) (Desc s) id
            (SharingType s) (Permissions s) (SRecipients s).

(** What is persisted of an association: every field but the transient
    back-reference, which carries no JSON tag. *)
Definition persisted (c : SharingRecipient) : SharingRecipient :=
  with_recipient None c.

(** *** Errors *)

(** Errors raised by the collaborators (store, scope parser). *)
Context {foreign_error : Type}.

(** Modelled from the spec: the four error values of the package
    (declared outside [sharings.go]), a closed set of named sentinels that
    no collaborator can produce; every other error value comes from a
    collaborator. *)
Inductive error :=
| ErrBadSharingType
| ErrMissingState
| ErrMissingScope
| ErrRecipientDoesNotExist
| Foreign (e : foreign_error).

(** *** Collaborators *)

(** A document as the store receives it: the [Sharing] and the persisted
    part of the objects its recipient pointers lead to. *)
Definition SharingJSON : Type :=
  (Sharing * list (option SharingRecipient))%type.

Inductive doc_setter :=
| CallSetID (id : string)
| CallSetRev (rev : string).

(** Modelled from the spec: the contract of the document store,
    [getDocument(db, collection, id) → (doc, error)] and
    [createDocument(db, doc) → error], with a distinguishable not-found
    condition; and of the scope parser,
    [parseScope(string) → (permissionSet, error)].
    - [couch_get] is given the document to fill and answers with the
      filled document and the error; reading leaves the store as it is;
    - [couch_create] answers with the new contents of the store, the
      setters it calls on the document, and the error;
    - [rand_letter] is the random source behind [utils.RandomString];
    - [Recipient_zero] is [Recipient{}]; [consts_Sharings] and
      [consts_Recipients] are the two document types of package [consts]. *)
Class Collaborators := {
  Recipient_zero : Recipient;
  consts_Sharings : string;
  consts_Recipients : string;
  Database : Type;
  Couch : Type;
  not_found : foreign_error → bool;
  couch_get : Couch → Database → string → string → Recipient →
              Recipient * option foreign_error;
  couch_create : Couch → Database → SharingJSON →
                 Couch * list doc_setter * option foreign_error;
  UnmarshalScopeString : string → option PermSet * option foreign_error;
  rand_letter : N → ascii * N
}.

Context `{!Collaborators}.

(** [ID], [Rev], [DocType], [SetID], [SetRev] of [*Sharing]. *)
#[export] Instance Sharing_Doc : Doc Sharing := {|
  ID s := SID s;
  Rev s := SRev s;
  DocType _ := consts_Sharings;
  SetID id s := with_SID id s;
  SetRev rev s := with_SRev rev s
|}.

(** *** The world and the monad *)

Inductive StoreCall :=
| CallGetDoc (db : Database) (doctype id : string)
| CallCreateDoc (db : Database) (doc : SharingJSON).

Record World := mkWorld {
  mem : gmap loc SharingRecipient;
  couch : Couch;
  calls : list StoreCall;
  seed : N
}.

Inductive outcome (A : Type) :=
| Returns (a : A) (w : World)
| Panics.
Arguments Returns {A} a w.
Arguments Panics {A}.

Definition Go (A : Type) : Type := World → outcome A.

#[export] Instance Go_ret : MRet Go := λ A a w, Returns a w.
#[export] Instance Go_bind : MBind Go := λ A B f m w,
  match m w with
  | Returns a w' => f a w'
  | Panics => Panics
  end.

(** [*p], which panics on nil. *)
Definition load (p : loc) : Go SharingRecipient := λ w,
  match mem w !! p with
  | Some c => Returns c w
  | None => Panics
  end.

(** [*p = c] for a [p] that was loaded before. *)
Definition store (p : loc) (c : SharingRecipient) : Go unit := λ w,
  Returns () (mkWorld (<[p := c]> (mem w)) (couch w) (calls w) (seed w)).

(** The JSON form of a sharing in a given memory. *)
Definition json (m : gmap loc SharingRecipient) (s : Sharing) : SharingJSON :=
  (s, (λ p, persisted <$> m !! p) <$> SRecipients s).

Definition log (c : StoreCall) : Go unit := λ w,
  Returns () (mkWorld (mem w) (couch w) (calls w ++ [c]) (seed w)).

(** *** Collaborator calls *)

(** Modelled from the spec: [couchdb.IsNotFoundError], the test for the
    store's not-found condition; nil and the package's own sentinels are not
    not-found errors. *)
Definition IsNotFoundError (err : option error) : bool :=
  match err with
  | Some (Foreign e) => not_found e
  | _ => false
  end.

(** Modelled from the spec: [couchdb.GetDoc(db, doctype, id, out)], one read
    of the store, which fills [out] and returns the error. *)
Definition GetDoc (db : Database) (doctype id : string) (out : Recipient)
  : Go (Recipient * option error) := λ w,
  let '(doc, err) := couch_get (couch w) db doctype id out in
  (log (CallGetDoc db doctype id) ;; mret (doc, Foreign <$> err)) w.

Definition apply_setter (s : Sharing) (c : doc_setter) : Sharing :=
  match c with
  | CallSetID id => SetID id s
  | CallSetRev rev => SetRev rev s
  end.

(** Modelled from the spec: [couchdb.CreateDoc(db, doc)], one insertion
    request; the store is handed the JSON form of the document, may assign
    its id and revision, and returns the error. *)
Definition CreateDoc (db : Database) (doc : Sharing)
  : Go (Sharing * option error) := λ w,
  let j := json (mem w) doc in
  let '(c', setters, err) := couch_create (couch w) db j in
  Returns (foldl apply_setter doc setters, Foreign <$> err)
          (mkWorld (mem w) c' (calls w ++ [CallCreateDoc db j]) (seed w)).

(** Modelled from the spec: [utils.RandomString(n)], a string of [n]
    characters drawn one after the other from the random source. *)
Fixpoint random_letters (n : nat) (sd : N) : string * N :=
  match n with
  | O => (EmptyString, sd)
  | S n' =>
    let '(a, sd') := rand_letter sd in
    let '(rest, sd'') := random_letters n' sd' in
    (String a rest, sd'')
  end.

#[global] Arguments random_letters : simpl never.

Definition RandomString (n : nat) : Go string := λ w,
  let '(str, sd) := random_letters n (seed w) in
  Returns str (mkWorld (mem w) (couch w) (calls w) sd).

(** *** [sharings.go] *)

(** [Links]: the self link of the sharing. *)
Definition Links (s : Sharing) : jsonapi.LinksList :=
  jsonapi.mkLinksList ("/sharings/" +:+ SID s).

(** [GetRecipient] returns the Recipient stored in database from a given
    ID.  The document is returned next to the error in every case. *)
Definition GetRecipient (db : Database) (recID : string)
  : Go (Recipient * option error) :=
  let doc := Recipient_zero in
  '(doc, err) ← GetDoc db consts_Recipients recID doc;
  let err := if IsNotFoundError err then Some ErrRecipientDoesNotExist
             else err in
  mret (doc, err).

(** The loop of [Recipients]: [rest] is what remains to range over,
    [sRecipients] the slice built so far.  A failed fetch returns from the
    method with a nil slice and the error; an exhausted range leaves the loop
    with the slice it built. *)
Fixpoint Recipients_loop (db : Database) (rest : list loc)
    (sRecipients : list loc) : Go (list loc * option error) :=
  match rest with
  | [] => mret (sRecipients, None)
  | sRec :: rest' =>
    c ← load sRec;
    '(recipient, err) ← GetRecipient db (jsonapi.ID (RefRecipient c));
    match err with
    | Some e => mret ([], Some e)
    | None =>
      store sRec (with_recipient (Some recipient) c) ;;
      Recipients_loop db rest' (sRecipients ++ [sRec])
    end
  end.

(** [Recipients] returns the sharing recipients.  The receiver is passed in
    and handed back: it is reassigned only when the loop ran to its end. *)
Definition Recipients (db : Database) (s : Sharing)
  : Go (Sharing * list loc * option error) :=
  '(sRecipients, err) ← Recipients_loop db (SRecipients s) [];
  match err with
  | Some e => mret (s, [], Some e)
  | None => mret (with_SRecipients sRecipients s, sRecipients, None)
  end.

(** [Relationships] is used to generate the recipients relationships.
    [data] has been made with the length of the slice; [data[i] = x] panics
    out of range, and so does [r.ID()] on a nil [r]. *)
Definition deref {A : Type} (o : option A) : Go A := λ w,
  match o with
  | Some a => Returns a w
  | None => Panics
  end.

Definition set_index {A : Type} (data : list A) (i : nat) (x : A)
  : Go (list A) := λ w,
  if decide (i < length data) then Returns (<[i := x]> data) w
  else Panics.

Fixpoint Relationships_loop (rest : list loc) (i : nat)
    (data : list jsonapi.ResourceIdentifier)
  : Go (list jsonapi.ResourceIdentifier) :=
  match rest with
  | [] => mret data
  | rec :: rest' =>
    c ← load rec;
    r ← deref (recipient c);
    data ← set_index data i (jsonapi.mkResourceIdentifier (ID r) (DocType r));
    Relationships_loop rest' (S i) data
  end.

(** The zero value of [jsonapi.ResourceIdentifier]. *)
Definition ResourceIdentifier_zero : jsonapi.ResourceIdentifier :=
  jsonapi.mkResourceIdentifier "" "".

Definition Relationships (s : Sharing) : Go jsonapi.RelationshipMap :=
  let l := length (SRecipients s) in
  let i := 0 in
  let data := replicate l ResourceIdentifier_zero in
  data ← Relationships_loop (SRecipients s) i data;
  let contents := jsonapi.mkRelationship data in
  mret {[ "recipients" := contents ]}.

(** [Included]: a [jsonapi.Object] is here the [*Recipient] it wraps, nil
    or not; appending a nil pointer does not dereference it. *)
Fixpoint Included_loop (rest : list loc) (included : list (option Recipient))
  : Go (list (option Recipient)) :=
  match rest with
  | [] => mret included
  | rec :: rest' =>
    c ← load rec;
    let r := recipient c in
    Included_loop rest' (included ++ [r])
  end.

Definition Included (s : Sharing) : Go (list (option Recipient)) :=
  Included_loop (SRecipients s) [].

(** [CheckSharingType] returns an error if the sharing type is incorrect. *)
Definition CheckSharingType (sharingType : string) : option error :=
  if decide (sharingType = consts.OneShotSharing) then None
  else if decide (sharingType = consts.MasterSlaveSharing) then None
  else if decide (sharingType = consts.MasterMasterSharing) then None
  else Some ErrBadSharingType.

(** [Create] inserts a Sharing document in database. *)
Definition Create (db : Database) (doc : Sharing)
  : Go (Sharing * option error) :=
  '(doc, err) ← CreateDoc db doc;
  mret (doc, err).

(** [CreateSharingRequest] checks fields integrity and creates a sharing
    document for an incoming sharing request.  A nil [*Sharing] is [None]. *)
Definition CreateSharingRequest (db : Database)
    (desc state sharingType scope : string)
  : Go (option Sharing * option error) :=
  if decide (state = "") then mret (None, Some ErrMissingState)
  else match CheckSharingType sharingType with
  | Some err => mret (None, Some err)
  | None =>
    if decide (scope = "") then mret (None, Some ErrMissingScope)
    else
      let '(permissions, err) := UnmarshalScopeString scope in
      match err with
      | Some e => mret (None, Some (Foreign e))
      | None =>
        let sharing :=
          mkSharing "" "" "" false desc state sharingType permissions [] in
        '(sharing, err) ← Create db sharing;
        mret (Some sharing, err)
      end
  end.

(** The second loop of [CheckSharingCreation]. *)
Fixpoint mark_pending (sRecipients : list loc) : Go unit :=
  match sRecipients with
  | [] => mret ()
  | sRec :: rest =>
    c ← load sRec;
    store sRec (with_Status consts.PendingSharingStatus c) ;;
    mark_pending rest
  end.

(** [CheckSharingCreation] initializes and check some sharing fields at
    creation.  The sharing is passed in and handed back. *)
Definition CheckSharingCreation (db : Database) (sharing : Sharing)
  : Go (Sharing * option error) :=
  let sharingType := SharingType sharing in
  match CheckSharingType sharingType with
  | Some err => mret (sharing, Some err)
  | None =>
    '(sharing, sRecipients, err) ← Recipients db sharing;
    match err with
    | Some e => mret (sharing, Some e)
    | None =>
      mark_pending sRecipients ;;
      let sharing := with_Owner true sharing in
      id ← RandomString 32;
      let sharing := with_SharingID id sharing in
      mret (sharing, None)
    end
  end.

End sharings.

Arguments Returns {_ _ _ _ _} a w.
Arguments Panics {_ _ _ _ _}.

(** ** What the statements speak about *)

Section notions.

Context {Recipient : Type} `{!Doc Recipient} {PermSet foreign_error : Type}.
Context `{!@Collaborators Recipient PermSet foreign_error}.

Abbreviation Memory := (gmap loc (@SharingRecipient Recipient)).

(** The answer of the store for a recipient id. *)
Definition fetched (c : Couch) (db : Database) (recID : string)
  : Recipient * option foreign_error :=
  couch_get c db consts_Recipients recID Recipient_zero.

(** The error [GetRecipient] makes of the store's. *)
Definition remap (err : option foreign_error) : option (@error foreign_error) :=
  match err with
  | None => None
  | Some e => if not_found e then Some ErrRecipientDoesNotExist
              else Some (Foreign e)
  end.

(** The association object at [p] exists and the id it refers to is read
    from the store without error. *)
Definition resolves (m : Memory) (c : Couch) (db : Database) (p : loc)
  : Prop :=
  ∃ cell, m !! p = Some cell ∧
          (fetched c db (jsonapi.ID (RefRecipient cell))).2 = None.

(** The association object at [p] exists and the store has no document
    for the id it refers to. *)
Definition absent (m : Memory) (c : Couch) (db : Database) (p : loc)
  : Prop :=
  ∃ cell e, m !! p = Some cell ∧
            (fetched c db (jsonapi.ID (RefRecipient cell))).2 = Some e ∧
            not_found e = true.

(** The back-reference of the association object at [p] is populated. *)
Definition populated (m : Memory) (p : loc) : Prop :=
  ∃ cell r, m !! p = Some cell ∧ recipient cell = Some r.

(** The id the association object at [p] refers to. *)
Definition ref_id (m : Memory) (p : loc) : string :=
  match m !! p with
  | Some cell => jsonapi.ID (RefRecipient cell)
  | None => ""
  end.

(** The memory once the objects at [l] have been given, one after the
    other, the entity the store answers for their id. *)
Definition resolve_one (c : Couch) (db : Database) (m : Memory) (p : loc)
  : Memory :=
  match m !! p with
  | Some cell =>
    <[p := with_recipient
             (Some (fetched c db (jsonapi.ID (RefRecipient cell))).1) cell]> m
  | None => m
  end.

Definition resolve_all (c : Couch) (db : Database) (l : list loc)
    (m : Memory) : Memory :=
  foldl (resolve_one c db) m l.

(** The memory once the objects at [l] have been marked pending. *)
Definition pending_one (m : Memory) (p : loc) : Memory :=
  match m !! p with
  | Some cell => <[p := with_Status consts.PendingSharingStatus cell]> m
  | None => m
  end.

Definition pending_all (l : list loc) (m : Memory) : Memory :=
  foldl pending_one m l.

(** The reads of the store that resolving the objects at [l] makes. *)
Definition fetch_calls (db : Database) (m : Memory) (l : list loc)
  : list StoreCall :=
  (λ p, CallGetDoc db consts_Recipients (ref_id m p)) <$> l.

(** The identifier [Relationships] emits for a resolved recipient. *)
Definition identifier (r : Recipient) : jsonapi.ResourceIdentifier :=
  jsonapi.mkResourceIdentifier (ID r) (DocType r).

(** The back-reference held by the association object at [p], if any. *)
Definition back_reference (m : Memory) (p : loc) : option Recipient :=
  m !! p ≫= recipient.

(** The entities behind the populated back-references of [l], in order. *)
Definition entities (m : Memory) (l : list loc) : list Recipient :=
  omap (back_reference m) l.

(** The sharing type is one of the three enumerated constants. *)
Definition enumerated (sharingType : string) : Prop :=
  sharingType = consts.OneShotSharing ∨
  sharingType = consts.MasterSlaveSharing ∨
  sharingType = consts.MasterMasterSharing.

Definition is_read (call : StoreCall) : bool :=
  match call with
  | CallGetDoc _ _ _ => true
  | CallCreateDoc _ _ => false
  end.

End notions.

(** ** A small platform to run the code on *)

Module Demo.

(** A recipient entity with an id, a revision and an address. *)
Record contact := mkContact {
  RID : string;
  RRev : string;
  Email : string
}.

#[global] Instance contact_Doc : Doc contact := {|
  ID r := RID r;
  Rev r := RRev r;
  DocType _ := "io.cozy.recipients";
  SetID id r := mkContact id (RRev r) (Email r);
  SetRev rev r := mkContact (RID r) rev (Email r)
|}.

Inductive failure :=
| NotFound
| Unreachable
| BadScope.

(** The store: the recipients known by id, the ids that cannot be read,
    and the sharings inserted so far. *)
Record store := mkStore {
  known : gmap string contact;
  broken : list string;
  inserted : list (@SharingJSON contact (list string))
}.

Definition get (c : store) (db : unit) (doctype id : string) (out : contact)
  : contact * option failure :=
  if decide (id ∈ broken c) then (out, Some Unreachable)
  else match known c !! id with
       | Some r => (r, None)
       | None => (out, Some NotFound)
       end.

Definition create (c : store) (db : unit)
    (j : @SharingJSON contact (list string))
  : store * list doc_setter * option failure :=
  (mkStore (known c) (broken c) (inserted c ++ [j]),
   [CallSetID "s1"; CallSetRev "1-0"], None).

Definition parse (scope : string) : option (list string) * option failure :=
  if decide (scope = "?") then (None, Some BadScope)
  else (Some [scope], None).

Definition letter (sd : N) : ascii * N :=
  (ascii_of_N (97 + sd `mod` 26), (sd * 7 + 3) `mod` 101)%N.

#[global] Instance platform
  : @Collaborators contact (list string) failure := {|
  Recipient_zero := mkContact "" "" "";
  consts_Sharings := "io.cozy.sharings";
  consts_Recipients := "io.cozy.recipients";
  Database := unit;
  Couch := store;
  not_found e := match e with NotFound => true | _ => false end;
  couch_get := get;
  couch_create := create;
  UnmarshalScopeString := parse;
  rand_letter := letter
|}.

Definition alice : contact := mkContact "alice" "1-a" "alice@example.net".
Definition bob : contact := mkContact "bob" "1-b" "bob@example.net".

Definition the_store : store :=
  mkStore {[ "alice" := alice; "bob" := bob ]} ["carol"] [].

Definition assoc (id : string) : @SharingRecipient contact :=
  mkSharingRecipient "" "" "" (jsonapi.mkResourceIdentifier id
                                 "io.cozy.recipients") None.

(** Four association objects: two that resolve, one whose id the store
    does not have, one whose id the store fails to read. *)
Definition the_memory : gmap loc (@SharingRecipient contact) :=
  {[ 1%positive := assoc "alice"; 2%positive := assoc "bob";
     3%positive := assoc "ghost"; 4%positive := assoc "carol" ]}.

Definition the_db : @Database _ _ _ platform := tt.

Definition the_world : World := mkWorld the_memory the_store [] 5.

Definition sharing_of (ty : string) (l : list loc)
  : @Sharing (list string) :=
  mkSharing "" "" "" false "photos" "" ty None l.

(** The world once the first two associations have been resolved. *)
Definition resolved_world : World :=
  mkWorld (resolve_all the_store the_db [1; 2]%positive the_memory)
          the_store [] 5.

Definition one_shot (l : list loc) : @Sharing (list string) :=
  sharing_of "one-shot" l.

End Demo.

(** ** Properties *)

Section proofs.

Context {Recipient : Type} `{!Doc Recipient} {PermSet foreign_error : Type}.
Context `{!@Collaborators Recipient PermSet foreign_error}.

Abbreviation Memory := (gmap loc (@SharingRecipient Recipient)).

Implicit Types (w : World) (m : Memory) (c : Couch) (db : Database).
Implicit Types (s : @Sharing PermSet) (p q : loc) (l pre post : list loc).
Implicit Types (cell : @SharingRecipient Recipient).

Ltac run := unfold mbind, Go_bind, mret, Go_ret, load, store, log, deref; simpl.

(** *** Field assignments *)

Lemma with_SRecipients_same s : with_SRecipients (SRecipients s) s = s.
Proof. by destruct s. Qed.

(** *** The resolved memory *)

Lemma resolve_one_lookup c db m p q :
  resolve_one c db m p !! q =
  if decide (p = q)
  then with_recipient (Some (fetched c db (ref_id m p)).1) <$> m !! q
  else m !! q.
Proof.
  unfold resolve_one, ref_id. case_decide as Hpq.
  - subst q. destruct (m !! p) as [cell|] eqn:Hp.
    + by rewrite lookup_insert_eq.
    + by rewrite Hp.
  - destruct (m !! p); [by rewrite lookup_insert_ne|done].
Qed.

Lemma resolve_one_ref_id c db m p q :
  ref_id (resolve_one c db m p) q = ref_id m q.
Proof.
  unfold ref_id at 1. rewrite resolve_one_lookup. unfold ref_id at 2.
  case_decide; [|done]. by destruct (m !! q).
Qed.

Lemma resolve_one_persisted c db m p :
  persisted <$> resolve_one c db m p = persisted <$> m.
Proof.
  apply map_eq. intros q. rewrite !lookup_fmap, resolve_one_lookup.
  case_decide; [|done]. by destruct (m !! q).
Qed.

Lemma resolve_all_cons c db p l m :
  resolve_all c db (p :: l) m = resolve_all c db l (resolve_one c db m p).
Proof. reflexivity. Qed.

Lemma resolve_all_persisted c db l m :
  persisted <$> resolve_all c db l m = persisted <$> m.
Proof.
  revert m. induction l as [|p l IH]; intros m; [done|].
  by rewrite resolve_all_cons, IH, resolve_one_persisted.
Qed.

Lemma resolve_all_ref_id c db l m q :
  ref_id (resolve_all c db l m) q = ref_id m q.
Proof.
  revert m. induction l as [|p l IH]; intros m; [done|].
  by rewrite resolve_all_cons, IH, resolve_one_ref_id.
Qed.

Lemma resolve_all_notin c db l m q :
  q ∉ l → resolve_all c db l m !! q = m !! q.
Proof.
  revert m. induction l as [|p l IH]; intros m Hq; [done|].
  apply not_elem_of_cons in Hq as [Hne Hq].
  rewrite resolve_all_cons, IH by done.
  rewrite resolve_one_lookup. by case_decide; [subst|].
Qed.

Lemma resolve_all_in c db l m q cell :
  q ∈ l → m !! q = Some cell →
  resolve_all c db l m !! q =
  Some (with_recipient
          (Some (fetched c db (jsonapi.ID (RefRecipient cell))).1) cell).
Proof.
  revert m cell. induction l as [|p l IH]; intros m cell Hq Hm.
  { by apply elem_of_nil in Hq. }
  rewrite resolve_all_cons.
  destruct (decide (p = q)) as [->|Hne].
  - assert (resolve_one c db m q !! q =
            Some (with_recipient
              (Some (fetched c db (jsonapi.ID (RefRecipient cell))).1) cell))
      as Hstep.
    { rewrite resolve_one_lookup, decide_True by done.
      unfold ref_id. by rewrite Hm. }
    destruct (decide (q ∈ l)) as [Hin|Hout].
    + by rewrite (IH _ _ Hin Hstep).
    + by rewrite (resolve_all_notin c db l _ q Hout).
  - apply elem_of_cons in Hq as [->|Hq]; [done|].
    apply IH; [done|]. by rewrite resolve_one_lookup, decide_False.
Qed.

Lemma resolve_all_lookup c db l m p cell :
  m !! p = Some cell →
  ∃ r, resolve_all c db l m !! p = Some (with_recipient r cell).
Proof.
  intros Hp. destruct (decide (p ∈ l)) as [Hin|Hout].
  - eexists. by apply resolve_all_in.
  - exists (recipient cell). rewrite resolve_all_notin, Hp by done.
    by destruct cell.
Qed.

Lemma resolves_resolve_one c db m p q :
  resolves m c db q → resolves (resolve_one c db m p) c db q.
Proof.
  intros (cell & Hq & Hok). unfold resolves. rewrite resolve_one_lookup.
  case_decide; [|by eauto]. rewrite Hq. simpl. by eexists.
Qed.

(** *** Running the code *)

Lemma GetRecipient_run db recID w :
  GetRecipient db recID w =
  Returns ((fetched (couch w) db recID).1,
           remap (fetched (couch w) db recID).2)
          (mkWorld (mem w) (couch w)
                   (calls w ++ [CallGetDoc db consts_Recipients recID])
                   (seed w)).
Proof.
  unfold GetRecipient, GetDoc, fetched, remap. run.
  destruct (couch_get _ _ _ _ _) as [doc [e|]]; simpl; [|done].
  by destruct (not_found e).
Qed.

Lemma Recipients_loop_resolved db pre rest acc w :
  Forall (resolves (mem w) (couch w) db) pre →
  Recipients_loop db (pre ++ rest) acc w =
  Recipients_loop db rest (acc ++ pre)
    (mkWorld (resolve_all (couch w) db pre (mem w)) (couch w)
             (calls w ++ fetch_calls db (mem w) pre) (seed w)).
Proof.
  revert acc w. induction pre as [|p pre IH]; intros acc w Hall.
  - destruct w; simpl. by rewrite !app_nil_r.
  - apply Forall_cons in Hall as [(cell & Hp & Hok) Hall].
    cbn [app Recipients_loop]. run. rewrite Hp, GetRecipient_run, Hok.
    simpl. rewrite IH; simpl.
    + assert (resolve_one (couch w) db (mem w) p =
              <[p := with_recipient
                 (Some (fetched (couch w) db (jsonapi.ID (RefRecipient cell))).1)
                 cell]> (mem w)) as Hone.
      { unfold resolve_one. by rewrite Hp. }
      rewrite <-Hone, <-!app_assoc. simpl. unfold ref_id at 1. rewrite Hp.
      do 4 f_equal. unfold fetch_calls. apply list_fmap_ext. intros _ q _.
      f_equal. apply (resolve_one_ref_id (couch w) db (mem w) p q).
    + eapply Forall_impl; [exact Hall|]. intros q Hq.
      pose proof (resolves_resolve_one (couch w) db (mem w) p q Hq) as Hq'.
      unfold resolve_one in Hq'. by rewrite Hp in Hq'.
Qed.

Lemma Recipients_loop_fails db p post acc w cell e :
  mem w !! p = Some cell →
  (fetched (couch w) db (jsonapi.ID (RefRecipient cell))).2 = Some e →
  ∃ e', remap (Some e) = Some e' ∧
  Recipients_loop db (p :: post) acc w =
  Returns ([], Some e')
          (mkWorld (mem w) (couch w)
                   (calls w ++ fetch_calls db (mem w) [p]) (seed w)).
Proof.
  intros Hp Hko. cbn [Recipients_loop]. run.
  rewrite Hp, GetRecipient_run, Hko. unfold fetch_calls, ref_id. simpl.
  rewrite Hp. destruct (not_found e); eauto.
Qed.

Lemma Recipients_resolved db s w :
  Forall (resolves (mem w) (couch w) db) (SRecipients s) →
  Recipients db s w =
  Returns (s, SRecipients s, None)
    (mkWorld (resolve_all (couch w) db (SRecipients s) (mem w)) (couch w)
             (calls w ++ fetch_calls db (mem w) (SRecipients s)) (seed w)).
Proof.
  intros Hall. unfold Recipients. run.
  rewrite <-(app_nil_r (SRecipients s)) at 1.
  rewrite Recipients_loop_resolved by done. simpl.
  by rewrite with_SRecipients_same.
Qed.

Lemma Recipients_fails db s w pre p post cell e :
  SRecipients s = pre ++ p :: post →
  Forall (resolves (mem w) (couch w) db) pre →
  mem w !! p = Some cell →
  (fetched (couch w) db (jsonapi.ID (RefRecipient cell))).2 = Some e →
  ∃ e', remap (Some e) = Some e' ∧
  Recipients db s w =
  Returns (s, [], Some e')
    (mkWorld (resolve_all (couch w) db pre (mem w)) (couch w)
             (calls w ++ fetch_calls db (mem w) (pre ++ [p])) (seed w)).
Proof.
  intros Hs Hall Hp Hko. unfold Recipients. run.
  rewrite Hs, Recipients_loop_resolved by done.
  destruct (resolve_all_lookup (couch w) db pre (mem w) p cell Hp)
    as [r Hp1].
  set (w1 := mkWorld _ _ _ _).
  destruct (Recipients_loop_fails db p post ([] ++ pre) w1
              (with_recipient r cell) e Hp1 Hko) as (e' & He' & Hrun).
  exists e'. split; [done|]. rewrite Hrun. subst w1. simpl.
  unfold fetch_calls. rewrite fmap_app, app_assoc. simpl.
  by rewrite resolve_all_ref_id.
Qed.

(** Either every association resolves or there is a first one that does
    not. *)
Lemma first_failure m c db l :
  Forall (resolves m c db) l ∨
  ∃ pre p post, l = pre ++ p :: post ∧ Forall (resolves m c db) pre ∧
                ¬ resolves m c db p.
Proof.
  induction l as [|q l IH]; [by left|].
  assert (resolves m c db q ∨ ¬ resolves m c db q) as [Hq|Hq].
  { unfold resolves. destruct (m !! q) as [cell|].
    - destruct (fetched c db (jsonapi.ID (RefRecipient cell))).2 eqn:Hf.
      + right. intros (cell' & Hq & Hok). congruence.
      + left. eauto.
    - right. intros (cell' & Hq & _). discriminate. }
  - destruct IH as [IH|(pre & p & post & -> & Hpre & Hp)].
    + left. by constructor.
    + right. exists (q :: pre), p, post. split_and!; [done| |done].
      by constructor.
  - right. exists [], q, l. split_and!; [done|constructor|done].
Qed.

Lemma absent_not_resolves m c db p : absent m c db p → ¬ resolves m c db p.
Proof.
  intros (cell & e & Hp & Hf & _) (cell' & Hp' & Hok). by simplify_eq.
Qed.

(** *** Marking pending *)

Lemma pending_all_cons p l m :
  pending_all (p :: l) m = pending_all l (pending_one m p).
Proof. reflexivity. Qed.

Lemma pending_one_lookup m p q :
  pending_one m p !! q =
  if decide (p = q)
  then with_Status consts.PendingSharingStatus <$> m !! q
  else m !! q.
Proof.
  unfold pending_one. case_decide as Hpq.
  - subst q. destruct (m !! p) as [cell|] eqn:Hp.
    + by rewrite lookup_insert_eq.
    + by rewrite Hp.
  - destruct (m !! p); [by rewrite lookup_insert_ne|done].
Qed.

Lemma pending_all_lookup l m q :
  pending_all l m !! q =
  if decide (q ∈ l)
  then with_Status consts.PendingSharingStatus <$> m !! q
  else m !! q.
Proof.
  revert m. induction l as [|p l IH]; intros m.
  { rewrite decide_False; [done|apply not_elem_of_nil]. }
  rewrite pending_all_cons, IH, pending_one_lookup.
  destruct (decide (p = q)) as [->|Hne].
  - rewrite (decide_True (P := q ∈ q :: l)) by apply list_elem_of_here.
    case_decide; [|done]. by destruct (m !! q).
  - destruct (decide (q ∈ l)) as [Hin|Hout].
    + by rewrite decide_True by (by apply list_elem_of_further).
    + rewrite decide_False; [done|]. rewrite elem_of_cons. intros [Heq|Hin].
      * by apply Hne.
      * by apply Hout.
Qed.

Lemma mark_pending_run l w :
  Forall (λ p, is_Some (mem w !! p)) l →
  mark_pending l w =
  Returns () (mkWorld (pending_all l (mem w)) (couch w) (calls w) (seed w)).
Proof.
  revert w. induction l as [|p l IH]; intros w Hall.
  - by destruct w.
  - apply Forall_cons in Hall as [[cell Hp] Hall].
    cbn [mark_pending]. run. rewrite Hp. rewrite IH; cbn [mem couch calls seed].
    + unfold pending_one. by rewrite Hp.
    + eapply Forall_impl; [exact Hall|]. intros q Hq. simpl in *.
      destruct (decide (p = q)) as [->|Hne].
      * rewrite lookup_insert_eq. by eexists.
      * by rewrite lookup_insert_ne.
Qed.

(** *** The random string *)

Lemma random_letters_length n sd :
  String.length (random_letters n sd).1 = n.
Proof.
  revert sd. induction n as [|n IH]; intros sd; [done|].
  change (random_letters (S n) sd) with
    (let '(a, sd') := rand_letter sd in
     let '(rest, sd'') := random_letters n sd' in (String a rest, sd'')).
  destruct (rand_letter sd) as [a sd'].
  specialize (IH sd'). destruct (random_letters n sd') as [rest sd''].
  simpl in *. by rewrite IH.
Qed.

Lemma RandomString_run n w :
  RandomString n w =
  Returns (random_letters n (seed w)).1
          (mkWorld (mem w) (couch w) (calls w)
                   (random_letters n (seed w)).2).
Proof. unfold RandomString. by destruct (random_letters n (seed w)). Qed.

(** *** The setters of the store *)

Lemma apply_setters_fields s (setters : list doc_setter) :
  let s' := foldl apply_setter s setters in
  Type_ s' = Type_ s ∧ Owner s' = Owner s ∧ Desc s' = Desc s ∧
  SharingID s' = SharingID s ∧ SharingType s' = SharingType s ∧
  Permissions s' = Permissions s ∧ SRecipients s' = SRecipients s.
Proof.
  revert s. induction setters as [|x setters IH]; intros s; [done|].
  simpl. specialize (IH (apply_setter s x)). simpl in IH.
  destruct IH as (-> & -> & -> & -> & -> & -> & ->). by destruct x.
Qed.

(** *** The serializers *)

Lemma populated_back_reference m p :
  populated m p ↔ is_Some (back_reference m p).
Proof.
  unfold populated, back_reference. split.
  - intros (cell & r & -> & Hr). simpl. by eexists.
  - intros [r Hr]. destruct (m !! p) as [cell|]; [|done]. by exists cell, r.
Qed.

Lemma entities_cons m p l r :
  back_reference m p = Some r → entities m (p :: l) = r :: entities m l.
Proof. intros Hr. unfold entities. simpl. by rewrite Hr. Qed.

Lemma entities_length m l :
  Forall (populated m) l → length (entities m l) = length l.
Proof.
  induction 1 as [|p l [r Hr]%populated_back_reference _ IH]; [done|].
  rewrite (entities_cons _ _ _ _ Hr). simpl. by rewrite IH.
Qed.

Lemma entities_lookup m l i p :
  Forall (populated m) l → l !! i = Some p →
  back_reference m p = entities m l !! i ∧ is_Some (entities m l !! i).
Proof.
  intros Hall. revert i.
  induction Hall as [|q l [r Hr]%populated_back_reference _ IH]; intros i Hi.
  { by rewrite lookup_nil in Hi. }
  rewrite (entities_cons _ _ _ _ Hr). destruct i as [|i]; simpl in *.
  - injection Hi as ->. by rewrite Hr.
  - by apply IH.
Qed.

Lemma Relationships_loop_run l before mid after w :
  Forall (populated (mem w)) l → length mid = length l →
  Relationships_loop l (length before) (before ++ mid ++ after) w =
  Returns (before ++ (identifier <$> entities (mem w) l) ++ after) w.
Proof.
  intros Hall. revert before mid.
  induction Hall as [|p l Hp _ IH]; intros before mid Hlen.
  { by destruct mid. }
  destruct mid as [|x mid]; [done|]. injection Hlen as Hlen.
  pose proof Hp as [r Hr]%populated_back_reference.
  destruct Hp as (cell & r' & Hcell & Hr').
  unfold back_reference in Hr. rewrite Hcell in Hr. simpl in Hr.
  assert (back_reference (mem w) p = Some r) as Hback.
  { unfold back_reference. by rewrite Hcell. }
  rewrite (entities_cons (mem w) p l r Hback), fmap_cons.
  specialize (IH (before ++ [identifier r]) mid Hlen).
  rewrite length_app, <-app_assoc in IH. cbn [length app] in IH.
  replace (length before + 1) with (S (length before)) in IH by lia.
  cbn [Relationships_loop]. unfold mbind, Go_bind, load, deref, set_index.
  rewrite Hcell, Hr.
  rewrite decide_True by (rewrite !length_app; simpl; lia).
  rewrite insert_app_r_alt, Nat.sub_diag by lia.
  rewrite <-app_assoc in IH. exact IH.
Qed.

Lemma Relationships_run s w :
  Forall (populated (mem w)) (SRecipients s) →
  Relationships s w =
  Returns {[ "recipients" :=
             jsonapi.mkRelationship
               (identifier <$> entities (mem w) (SRecipients s)) ]} w.
Proof.
  intros Hall. unfold Relationships. run.
  pose proof (Relationships_loop_run (SRecipients s) []
    (replicate (length (SRecipients s)) ResourceIdentifier_zero) [] w Hall)
    as Hrun.
  rewrite length_replicate, !app_nil_r in Hrun. simpl in Hrun.
  by rewrite Hrun.
Qed.

Lemma Included_loop_run l acc w :
  Forall (populated (mem w)) l →
  Included_loop l acc w = Returns (acc ++ (Some <$> entities (mem w) l)) w.
Proof.
  intros Hall. revert acc.
  induction Hall as [|p l Hp _ IH]; intros acc.
  { simpl. by rewrite app_nil_r. }
  destruct Hp as (cell & r & Hcell & Hr).
  rewrite (entities_cons (mem w) p l r), fmap_cons.
  - cbn [Included_loop]. unfold mbind, Go_bind, load.
    by rewrite Hcell, IH, Hr, <-app_assoc.
  - unfold back_reference. by rewrite Hcell.
Qed.

(** *** Validation *)

Lemma CheckSharingType_cases (sharingType : string) :
  (enumerated sharingType ∧
   @CheckSharingType foreign_error sharingType = None) ∨
  (¬ enumerated sharingType ∧
   @CheckSharingType foreign_error sharingType = Some ErrBadSharingType).
Proof.
  unfold CheckSharingType, enumerated.
  repeat case_decide; intuition congruence.
Qed.

Lemma CheckSharingType_enumerated (sharingType : string) :
  enumerated sharingType →
  @CheckSharingType foreign_error sharingType = None.
Proof.
  intros Hen. by destruct (CheckSharingType_cases sharingType) as [[_ ?]|[? _]].
Qed.

(** C3: [CheckSharingType] returns no error exactly for the three strings
    "one-shot", "master-slave" and "master-master", and returns the
    bad-sharing-type error for every other string. *)
Theorem CheckSharingType_enumeration (sharingType : string) :
  (@CheckSharingType foreign_error sharingType = None ↔
   sharingType = "one-shot" ∨ sharingType = "master-slave" ∨
   sharingType = "master-master") ∧
  (@CheckSharingType foreign_error sharingType = None ∨
   @CheckSharingType foreign_error sharingType = Some ErrBadSharingType).
Proof.
  destruct (CheckSharingType_cases sharingType) as [[Hen ->]|[Hen ->]].
  - split; [done|by left].
  - split; [|by right]. split; [done|]. intros Hin. by destruct Hen.
Qed.

(** *** Incoming sharing requests *)

Lemma Create_run db doc w :
  Create db doc w =
  Returns (foldl apply_setter doc
                 (couch_create (couch w) db (json (mem w) doc)).1.2,
           Foreign <$> (couch_create (couch w) db (json (mem w) doc)).2)
          (mkWorld (mem w)
                   (couch_create (couch w) db (json (mem w) doc)).1.1
                   (calls w ++ [CallCreateDoc db (json (mem w) doc)])
                   (seed w)).
Proof.
  unfold Create, CreateDoc. run.
  by destruct (couch_create _ _ _) as [[c' setters] err].
Qed.

(** C5: with an empty state token, an empty scope string or a sharing type
    outside the enumeration, whatever the other arguments,
    [CreateSharingRequest] returns a nil sharing and one of the three
    validation errors, and the world is the one it started in: the store
    has been neither read nor written. *)
Theorem CreateSharingRequest_rejects_before_store
    db (desc state sharingType scope : string) w :
  state = "" ∨ scope = "" ∨ ¬ enumerated sharingType →
  ∃ e, CreateSharingRequest db desc state sharingType scope w =
       Returns (None, Some e) w ∧
       e ∈ [ErrMissingState; ErrBadSharingType; ErrMissingScope].
Proof.
  intros Hbad. unfold CreateSharingRequest.
  destruct (decide (state = "")) as [_|Hstate].
  { exists ErrMissingState. split; [done|]. rewrite !elem_of_cons. auto. }
  destruct (CheckSharingType_cases sharingType) as [[Hen ->]|[Hen ->]].
  - destruct (decide (scope = "")) as [_|Hscope].
    + exists ErrMissingScope. split; [done|]. rewrite !elem_of_cons. auto.
    + by destruct Hbad as [?|[?|?]].
  - exists ErrBadSharingType. split; [done|]. rewrite !elem_of_cons. auto.
Qed.

(** C9: the checks of [CreateSharingRequest] come in a fixed order.  An
    empty state token gives the missing-state error whatever the rest; with
    a state token, a sharing type outside the enumeration gives the
    bad-sharing-type error whatever the scope; and the missing-scope error
    comes out exactly when the state token is there, the sharing type is
    enumerated and the scope is empty. *)
Theorem CreateSharingRequest_check_order
    db (desc state sharingType scope : string) w :
  ∃ r w',
    CreateSharingRequest db desc state sharingType scope w = Returns r w' ∧
    (state = "" → r = (None, Some ErrMissingState)) ∧
    (state ≠ "" → ¬ enumerated sharingType →
     r = (None, Some ErrBadSharingType)) ∧
    (r.2 = Some ErrMissingScope ↔
     state ≠ "" ∧ enumerated sharingType ∧ scope = "").
Proof.
  unfold CreateSharingRequest.
  destruct (decide (state = "")) as [Hstate|Hstate].
  { eexists _, _. split; [done|]. split_and!; [done|done|].
    split; [done|]. by intros [? _]. }
  destruct (CheckSharingType_cases sharingType) as [[Hen ->]|[Hen ->]].
  - destruct (decide (scope = "")) as [Hscope|Hscope].
    { eexists _, _. split; [done|]. split_and!; done. }
    destruct (UnmarshalScopeString scope) as [perms [e|]].
    + eexists _, _. split; [done|]. split_and!; [done|done|].
      split; [done|]. by intros (_ & _ & ?).
    + unfold mbind, Go_bind. rewrite Create_run. simpl.
      eexists _, _. split; [done|]. split_and!; [done|done|]. simpl.
      split; [|by intros (_ & _ & ?)].
      by destruct (couch_create _ _ _).2.
  - eexists _, _. split; [done|]. split_and!; [done|done|].
    split; [done|]. by intros (_ & ? & _).
Qed.

(** C4: on a non-empty state token, an enumerated sharing type and a
    non-empty scope that parses, [CreateSharingRequest] makes one call to
    the store, the insertion of the sharing it built, and returns that
    sharing, with [Owner] false, [SharingID] the state token, [Desc] the
    description and [Permissions] the parsed set, next to the error of the
    store. *)
Theorem CreateSharingRequest_valid
    db (desc state sharingType scope : string) perms w :
  state ≠ "" → enumerated sharingType → scope ≠ "" →
  UnmarshalScopeString scope = (perms, None) →
  let doc := mkSharing "" "" "" false desc state sharingType perms [] in
  let answer := couch_create (couch w) db (doc, []) in
  ∃ sharing,
    CreateSharingRequest db desc state sharingType scope w =
    Returns (Some sharing, Foreign <$> answer.2)
            (mkWorld (mem w) answer.1.1
                     (calls w ++ [CallCreateDoc db (doc, [])]) (seed w)) ∧
    sharing = foldl apply_setter doc answer.1.2 ∧
    Owner sharing = false ∧ SharingID sharing = state ∧
    Desc sharing = desc ∧ Permissions sharing = perms ∧
    SharingType sharing = sharingType ∧ SRecipients sharing = [].
Proof.
  intros Hstate Hen Hscope Hparse doc answer.
  exists (foldl apply_setter doc answer.1.2).
  pose proof (apply_setters_fields doc answer.1.2) as Hf. simpl in Hf.
  destruct Hf as (_ & HO & HD & HI & HT & HP & HR).
  split_and!; try done.
  unfold CreateSharingRequest.
  rewrite decide_False by done.
  rewrite (CheckSharingType_enumerated _ Hen), decide_False by done.
  rewrite Hparse. unfold mbind, Go_bind. by rewrite Create_run.
Qed.

(** *** Resolving recipients *)

Lemma fetch_calls_are_reads db m l :
  Forall (λ call, is_read call = true) (fetch_calls db m l).
Proof. unfold fetch_calls. apply Forall_fmap. by apply Forall_true. Qed.

Lemma remap_not_exist (err : option foreign_error) :
  remap err = Some ErrRecipientDoesNotExist ↔
  ∃ e, err = Some e ∧ not_found e = true.
Proof.
  unfold remap. destruct err as [e|].
  - destruct (not_found e) eqn:Hnf.
    + split; [by exists e|done].
    + split; [done|]. intros (e' & [= <-] & Hnf'). congruence.
  - split; [done|]. by intros (e & ? & _).
Qed.

(** C6: when every association resolves, [Recipients] succeeds, returns the
    associations in their order and reassigns them to the sharing; the
    object at each position refers to the recipient it referred to before,
    and its back-reference is the entity the store answered for that id. *)
Theorem Recipients_preserves_order db s w :
  Forall (resolves (mem w) (couch w) db) (SRecipients s) →
  ∃ s' sRecipients w',
    Recipients db s w = Returns (s', sRecipients, None) w' ∧
    SRecipients s' = sRecipients ∧
    length sRecipients = length (SRecipients s) ∧
    ∀ i p, SRecipients s !! i = Some p →
      sRecipients !! i = Some p ∧
      ∃ cell cell',
        mem w !! p = Some cell ∧ mem w' !! p = Some cell' ∧
        RefRecipient cell' = RefRecipient cell ∧
        recipient cell' =
        Some (fetched (couch w) db (jsonapi.ID (RefRecipient cell))).1.
Proof.
  intros Hall. eexists s, (SRecipients s), _.
  split; [by apply Recipients_resolved|]. split_and!; [done|done|].
  intros i p Hi. split; [done|].
  assert (p ∈ SRecipients s) as Hin by (by eapply list_elem_of_lookup_2).
  pose proof (proj1 (Forall_forall _ _) Hall p Hin) as (cell & Hp & _).
  eexists cell, _. split; [done|].
  split; [simpl; by apply resolve_all_in|done].
Qed.

(** C7: [GetRecipient] makes one read of the store and returns the
    recipient-does-not-exist error exactly when the store answers not
    found, any other error of the store as it is, and no error otherwise;
    [Recipients] stops at the first association whose fetch fails: it
    returns that error with a nil slice, leaves the sharing's slice alone,
    and has read the store for the associations up to that one and for no
    later one. *)
Theorem GetRecipient_remaps_and_Recipients_fails_fast db :
  (∀ recID w, ∃ doc err,
     GetRecipient db recID w =
     Returns (doc, err)
             (mkWorld (mem w) (couch w)
                      (calls w ++ [CallGetDoc db consts_Recipients recID])
                      (seed w)) ∧
     (err = Some ErrRecipientDoesNotExist ↔
      ∃ e, (fetched (couch w) db recID).2 = Some e ∧ not_found e = true) ∧
     (∀ e, (fetched (couch w) db recID).2 = Some e → not_found e = false →
           err = Some (Foreign e)) ∧
     ((fetched (couch w) db recID).2 = None → err = None)) ∧
  (∀ s w pre p post cell e,
     SRecipients s = pre ++ p :: post →
     Forall (resolves (mem w) (couch w) db) pre →
     mem w !! p = Some cell →
     (fetched (couch w) db (jsonapi.ID (RefRecipient cell))).2 = Some e →
     ∃ doc err w1 w',
       GetRecipient db (jsonapi.ID (RefRecipient cell)) w =
       Returns (doc, Some err) w1 ∧
       Recipients db s w = Returns (s, [], Some err) w' ∧
       calls w' = calls w ++ fetch_calls db (mem w) (pre ++ [p]) ∧
       couch w' = couch w).
Proof.
  split.
  - intros recID w. eexists _, _. split; [apply GetRecipient_run|].
    split_and!.
    + apply remap_not_exist.
    + intros e -> Hnf. unfold remap. by rewrite Hnf.
    + by intros ->.
  - intros s w pre p post cell e Hs Hpre Hp Hko.
    destruct (Recipients_fails db s w pre p post cell e Hs Hpre Hp Hko)
      as (err & Herr & Hrun).
    eexists _, err, _, _. split_and!.
    + rewrite GetRecipient_run, Hko. by rewrite Herr.
    + exact Hrun.
    + done.
    + done.
Qed.

(** *** Checking a sharing at creation *)

Lemma first_unresolved m c db l :
  Forall (λ p, is_Some (m !! p)) l → Exists (absent m c db) l →
  ∃ pre p post cell e,
    l = pre ++ p :: post ∧ Forall (resolves m c db) pre ∧
    ¬ resolves m c db p ∧ m !! p = Some cell ∧
    (fetched c db (jsonapi.ID (RefRecipient cell))).2 = Some e.
Proof.
  intros Hmem Habs.
  destruct (first_failure m c db l) as [Hall|(pre & p & post & -> & Hpre & Hp)].
  - apply Exists_exists in Habs as (p & Hin & Hp).
    destruct (absent_not_resolves m c db p Hp).
    by apply (proj1 (Forall_forall _ _) Hall).
  - assert (is_Some (m !! p)) as [cell Hcell].
    { apply (proj1 (Forall_forall _ _) Hmem). apply elem_of_app. right.
      apply list_elem_of_here. }
    destruct (fetched c db (jsonapi.ID (RefRecipient cell))).2 as [e|] eqn:Hf.
    + by exists pre, p, post, cell, e.
    + destruct Hp. by exists cell.
Qed.

(** C1, amended: on a sharing whose association pointers are all non-nil
    and one of which refers to an id the store does not have,
    [CheckSharingCreation] returns an error and hands the sharing back as
    it was ([Owner], [SharingID] and the slice included); no association
    object changes in its status, tokens or recipient reference, the store
    is as before, and an object keeps its back-reference unless it was
    ranged over before the first association whose fetch fails. *)
Theorem CheckSharingCreation_failure db s w :
  Forall (λ p, is_Some (mem w !! p)) (SRecipients s) →
  Exists (absent (mem w) (couch w) db) (SRecipients s) →
  ∃ e w' pre p post,
    CheckSharingCreation db s w = Returns (s, Some e) w' ∧
    couch w' = couch w ∧
    persisted <$> mem w' = persisted <$> mem w ∧
    SRecipients s = pre ++ p :: post ∧
    Forall (resolves (mem w) (couch w) db) pre ∧
    ¬ resolves (mem w) (couch w) db p ∧
    ∀ q, q ∉ pre → mem w' !! q = mem w !! q.
Proof.
  intros Hmem Habs.
  destruct (first_unresolved _ _ _ _ Hmem Habs)
    as (pre & p & post & cell & e & Hs & Hpre & Hp & Hcell & Hko).
  unfold CheckSharingCreation.
  destruct (CheckSharingType_cases (SharingType s)) as [[_ ->]|[_ ->]].
  - destruct (Recipients_fails db s w pre p post cell e Hs Hpre Hcell Hko)
      as (e' & _ & Hrun).
    unfold mbind, Go_bind. rewrite Hrun.
    eexists e', _, pre, p, post. split; [done|]. simpl.
    split_and!; try done.
    + apply resolve_all_persisted.
    + intros q Hq. by apply resolve_all_notin.
  - by eexists ErrBadSharingType, w, pre, p, post.
Qed.

(** C2, amended: on a sharing whose type is enumerated and whose
    associations all resolve, [CheckSharingCreation] succeeds; the sharing
    it hands back has [Owner] true and, whatever it held before, a
    [SharingID] of 32 characters drawn from the random source; every
    association object has status "pending"; the store is as before and
    every call made to it was a read. *)
Theorem CheckSharingCreation_success db s w :
  enumerated (SharingType s) →
  Forall (resolves (mem w) (couch w) db) (SRecipients s) →
  ∃ s' w',
    CheckSharingCreation db s w = Returns (s', None) w' ∧
    Owner s' = true ∧
    SharingID s' = (random_letters 32 (seed w)).1 ∧
    String.length (SharingID s') = 32 ∧ SharingID s' ≠ "" ∧
    SRecipients s' = SRecipients s ∧
    (∀ p, p ∈ SRecipients s' →
       ∃ cell, mem w' !! p = Some cell ∧
               Status cell = consts.PendingSharingStatus) ∧
    couch w' = couch w ∧
    ∃ reads, calls w' = calls w ++ reads ∧
             Forall (λ call, is_read call = true) reads.
Proof.
  intros Hen Hall. unfold CheckSharingCreation.
  rewrite (CheckSharingType_enumerated _ Hen).
  unfold mbind, Go_bind. rewrite (Recipients_resolved db s w Hall).
  set (w1 := mkWorld _ _ _ _).
  assert (∀ p, p ∈ SRecipients s → is_Some (mem w1 !! p)) as Hmem.
  { intros p Hin.
    pose proof (proj1 (Forall_forall _ _) Hall p Hin) as (cell & Hp & _).
    subst w1. simpl.
    by rewrite (resolve_all_in _ _ _ _ _ cell Hin Hp). }
  rewrite mark_pending_run by (by apply Forall_forall).
  rewrite RandomString_run.
  pose proof (random_letters_length 32 (seed w)) as Hlen.
  eexists _, _. split; [done|]. simpl. split_and!; try done.
  - subst w1. simpl. intros Hempty. by rewrite Hempty in Hlen.
  - intros p Hin. destruct (Hmem p Hin) as [cell Hcell].
    exists (with_Status consts.PendingSharingStatus cell).
    subst w1. simpl in Hcell.
    by rewrite pending_all_lookup, decide_True, Hcell.
  - exists (fetch_calls db (mem w) (SRecipients s)).
    split; [done|apply fetch_calls_are_reads].
Qed.

(** *** Relationships and included resources *)

(** C8: when every back-reference is populated, [Relationships] returns
    the single group "recipients", whose identifiers are as many as the
    associations, and [Included] returns as many entities; position by
    position, the included entity is the one the association refers back
    to, and the identifier carries its id and its document type. *)
Theorem Relationships_match_Included s w :
  Forall (populated (mem w)) (SRecipients s) →
  ∃ data rs,
    Relationships s w =
    Returns {[ "recipients" := jsonapi.mkRelationship data ]} w ∧
    Included s w = Returns (Some <$> rs) w ∧
    length data = length (SRecipients s) ∧
    length rs = length (SRecipients s) ∧
    (∀ i p, SRecipients s !! i = Some p →
       back_reference (mem w) p = rs !! i) ∧
    (∀ i r, rs !! i = Some r →
       ∃ ri, data !! i = Some ri ∧
             jsonapi.ID ri = ID r ∧ jsonapi.Type_ ri = DocType r).
Proof.
  intros Hall.
  exists (identifier <$> entities (mem w) (SRecipients s)),
         (entities (mem w) (SRecipients s)).
  split_and!.
  - by apply Relationships_run.
  - unfold Included. by rewrite Included_loop_run.
  - by rewrite length_fmap, entities_length.
  - by apply entities_length.
  - intros i p Hi. by apply entities_lookup.
  - intros i r Hi. exists (identifier r). by rewrite list_lookup_fmap, Hi.
Qed.

(** C10: when every back-reference is populated, neither [Relationships]
    nor [Included] panics, and both leave the world as it is; on a sharing
    without associations, [Relationships] returns the group "recipients"
    with no identifier and [Included] returns no entity. *)
Theorem serializers_total s w :
  Forall (populated (mem w)) (SRecipients s) →
  (∃ groups included,
     Relationships s w = Returns groups w ∧
     Included s w = Returns included w ∧
     dom groups = ({[ "recipients" ]} : gset string)) ∧
  (SRecipients s = [] →
   Relationships s w =
   Returns {[ "recipients" := jsonapi.mkRelationship [] ]} w ∧
   Included s w = Returns [] w).
Proof.
  intros Hall. split.
  - eexists _, _. split_and!.
    + by apply Relationships_run.
    + unfold Included. by rewrite Included_loop_run.
    + by rewrite dom_singleton_L.
  - intros Hnil. unfold Relationships, Included. by rewrite Hnil.
Qed.

(** ** Further properties of the code *)

(** *** The document accessors and the self link *)


(** The self link of a sharing is "/sharings/" followed by its id, so two
    sharings have the same link exactly when they have the same id. *)
Theorem Links_determines_id s s' :
  jsonapi.Self (Links s) = "/sharings/" +:+ ID s ∧
  (Links s = Links s' ↔ ID s = ID s').
Proof.
  split; [done|]. unfold Links. simpl. split.
  - intros Heq. by simplify_eq.
  - by intros ->.
Qed.

(** *** More on resolving recipients *)

Lemma resolve_all_None c db l m p :
  m !! p = None → resolve_all c db l m !! p = None.
Proof.
  intros Hp. pose proof (resolve_all_persisted c db l m) as Hper.
  apply (f_equal (.!! p)) in Hper. rewrite !lookup_fmap, Hp in Hper.
  by destruct (resolve_all c db l m !! p).
Qed.

Lemma resolves_resolve_all c db l m p :
  resolves m c db p → resolves (resolve_all c db l m) c db p.
Proof.
  intros (cell & Hp & Hok).
  destruct (resolve_all_lookup c db l m p cell Hp) as [r Hr].
  by exists (with_recipient r cell).
Qed.

Lemma resolve_all_idempotent c db l m :
  resolve_all c db l (resolve_all c db l m) = resolve_all c db l m.
Proof.
  apply map_eq. intros q. destruct (decide (q ∈ l)) as [Hin|Hout].
  - destruct (m !! q) as [cell|] eqn:Hq.
    + pose proof (resolve_all_in c db l m q cell Hin Hq) as H1.
      by rewrite (resolve_all_in c db l _ q _ Hin H1).
    + by rewrite !resolve_all_None by (by rewrite ?resolve_all_None).
  - by rewrite resolve_all_notin.
Qed.

Lemma Recipients_loop_nil db p post acc w :
  mem w !! p = None → Recipients_loop db (p :: post) acc w = Panics.
Proof. intros Hp. cbn [Recipients_loop]. run. by rewrite Hp. Qed.

(** When every association resolves, [Recipients] reads the store once per
    association, in order, for the recipients document type and the id the
    association refers to; it changes neither the store nor any object that
    is not in the slice, and what would be persisted of the sharing is the
    same as before. *)
Theorem Recipients_footprint db s w :
  Forall (resolves (mem w) (couch w) db) (SRecipients s) →
  ∃ w',
    Recipients db s w = Returns (s, SRecipients s, None) w' ∧
    calls w' =
    calls w ++ ((λ p, CallGetDoc db consts_Recipients (ref_id (mem w) p))
                  <$> SRecipients s) ∧
    couch w' = couch w ∧ seed w' = seed w ∧
    (∀ q, q ∉ SRecipients s → mem w' !! q = mem w !! q) ∧
    json (mem w') s = json (mem w) s.
Proof.
  intros Hall. eexists. split; [by apply Recipients_resolved|]. simpl.
  split_and!; try done.
  - intros q Hq. by apply resolve_all_notin.
  - unfold json. f_equal. apply list_fmap_ext. intros _ p _.
    pose proof (resolve_all_persisted (couch w) db (SRecipients s) (mem w))
      as Hper.
    apply (f_equal (.!! p)) in Hper. by rewrite !lookup_fmap in Hper.
Qed.

(** Resolving twice is resolving once: a second run of [Recipients]
    succeeds as the first did and leaves the memory the first run made. *)
Theorem Recipients_idempotent db s w :
  Forall (resolves (mem w) (couch w) db) (SRecipients s) →
  ∃ w1 w2,
    Recipients db s w = Returns (s, SRecipients s, None) w1 ∧
    Recipients db s w1 = Returns (s, SRecipients s, None) w2 ∧
    mem w2 = mem w1 ∧ couch w2 = couch w1.
Proof.
  intros Hall. eexists _, _. split; [by apply Recipients_resolved|].
  split.
  - apply Recipients_resolved. simpl.
    eapply Forall_impl; [exact Hall|]. intros p Hp.
    by apply resolves_resolve_all.
  - simpl. split; [apply resolve_all_idempotent|done].
Qed.

(** A nil pointer among the associations makes [Recipients] panic when the
    range reaches it, that is when every association before it resolves;
    so does [CheckSharingCreation] on a sharing of an enumerated type. *)
Theorem Recipients_nil_association db s w pre p post :
  SRecipients s = pre ++ p :: post →
  Forall (resolves (mem w) (couch w) db) pre →
  mem w !! p = None →
  Recipients db s w = Panics ∧
  (enumerated (SharingType s) → CheckSharingCreation db s w = Panics).
Proof.
  intros Hs Hpre Hp.
  assert (Recipients db s w = Panics) as Hrun.
  { unfold Recipients. unfold mbind, Go_bind.
    rewrite Hs, Recipients_loop_resolved by done.
    rewrite Recipients_loop_nil; [done|]. simpl.
    by apply resolve_all_None. }
  split; [done|]. intros Hen. unfold CheckSharingCreation.
  rewrite (CheckSharingType_enumerated _ Hen). unfold mbind, Go_bind.
  by rewrite Hrun.
Qed.

(** *** More on the serializers *)

Lemma Included_loop_allocated l acc w :
  Forall (λ p, is_Some (mem w !! p)) l →
  Included_loop l acc w = Returns (acc ++ (back_reference (mem w) <$> l)) w.
Proof.
  intros Hall. revert acc.
  induction Hall as [|p l [cell Hp] _ IH]; intros acc.
  { simpl. by rewrite app_nil_r. }
  cbn [Included_loop]. unfold mbind, Go_bind, load.
  rewrite Hp, IH, fmap_cons, <-app_assoc. unfold back_reference at 2.
  by rewrite Hp.
Qed.

Lemma Included_loop_nil l acc w :
  ¬ Forall (λ p, is_Some (mem w !! p)) l → Included_loop l acc w = Panics.
Proof.
  revert acc. induction l as [|p l IH]; intros acc Hnot.
  { destruct Hnot. constructor. }
  cbn [Included_loop]. unfold mbind, Go_bind, load.
  destruct (mem w !! p) as [cell|] eqn:Hp; [|done].
  apply IH. intros Hall. apply Hnot. constructor; [by rewrite Hp|done].
Qed.

(** [Included] needs the association pointers to be non-nil and nothing
    more: it then returns, position by position, the back-reference of each
    association, nil where the association is unresolved, and leaves the
    world alone; with a nil pointer in the slice it panics. *)
Theorem Included_outcome s w :
  Included s w =
  if decide (Forall (λ p, is_Some (mem w !! p)) (SRecipients s))
  then Returns (back_reference (mem w) <$> SRecipients s) w
  else Panics.
Proof.
  unfold Included. case_decide as Hall.
  - by rewrite Included_loop_allocated.
  - by apply Included_loop_nil.
Qed.



Lemma omap_total {A B : Type} (f : A → option B) (g : A → B) (l : list A) :
  (∀ x, x ∈ l → f x = Some (g x)) → omap f l = g <$> l.
Proof.
  induction l as [|x l IH]; intros Hf; [done|]. simpl.
  rewrite (Hf x) by apply list_elem_of_here. simpl. f_equal.
  apply IH. intros y Hy. apply Hf. by apply list_elem_of_further.
Qed.

Lemma entities_resolve_all c db l m :
  Forall (resolves m c db) l →
  entities (resolve_all c db l m) l =
  (λ p, (fetched c db (ref_id m p)).1) <$> l.
Proof.
  intros Hall. unfold entities. apply omap_total. intros p Hin.
  pose proof (proj1 (Forall_forall _ _) Hall p Hin) as (cell & Hp & _).
  unfold back_reference, ref_id.
  by rewrite (resolve_all_in c db l m p cell Hin Hp), Hp.
Qed.

Lemma populated_resolve_all c db l m :
  Forall (resolves m c db) l → Forall (populated (resolve_all c db l m)) l.
Proof.
  intros Hall. apply Forall_forall. intros p Hin.
  pose proof (proj1 (Forall_forall _ _) Hall p Hin) as (cell & Hp & _).
  eexists _, _. split; [by apply resolve_all_in|done].
Qed.

(** Resolution makes the serializers safe: after a successful
    [Recipients], [Relationships] and [Included] return, and what they list,
    position by position, is the entity the store answered for the id the
    association refers to, and the identifier made of its id and type. *)
Theorem Recipients_then_serializers db s w :
  Forall (resolves (mem w) (couch w) db) (SRecipients s) →
  let answers :=
    (λ p, (fetched (couch w) db (ref_id (mem w) p)).1) <$> SRecipients s in
  ∃ s' w',
    Recipients db s w = Returns (s', SRecipients s', None) w' ∧
    Relationships s' w' =
    Returns {[ "recipients" :=
               jsonapi.mkRelationship (identifier <$> answers) ]} w' ∧
    Included s' w' = Returns (Some <$> answers) w'.
Proof.
  intros Hall answers. eexists s, _.
  split; [by apply Recipients_resolved|].
  set (w' := mkWorld _ _ _ _).
  assert (Forall (populated (mem w')) (SRecipients s)) as Hpop
    by (by apply populated_resolve_all).
  assert (entities (mem w') (SRecipients s) = answers) as Hent
    by (by apply entities_resolve_all).
  split.
  - by rewrite Relationships_run, Hent.
  - unfold Included. by rewrite Included_loop_run, Hent.
Qed.

(** *** More on checking a sharing at creation *)

(** The sharing type is checked first: a sharing whose type is not
    enumerated is refused with the bad-sharing-type error before any
    recipient is looked at, so the store is not read, no association object
    is touched (nil pointers included) and no random string is drawn. *)
Theorem CheckSharingCreation_type_first db s w :
  ¬ enumerated (SharingType s) →
  CheckSharingCreation db s w = Returns (s, Some ErrBadSharingType) w.
Proof.
  intros Hen. unfold CheckSharingCreation.
  destruct (CheckSharingType_cases (SharingType s)) as [[Hyes _]|[_ ->]].
  - by destruct Hen.
  - done.
Qed.

Lemma CheckSharingCreation_run db s w :
  enumerated (SharingType s) →
  Forall (resolves (mem w) (couch w) db) (SRecipients s) →
  CheckSharingCreation db s w =
  Returns (with_SharingID (random_letters 32 (seed w)).1 (with_Owner true s),
           None)
    (mkWorld (pending_all (SRecipients s)
                (resolve_all (couch w) db (SRecipients s) (mem w)))
             (couch w)
             (calls w ++ fetch_calls db (mem w) (SRecipients s))
             (random_letters 32 (seed w)).2).
Proof.
  intros Hen Hall. unfold CheckSharingCreation.
  rewrite (CheckSharingType_enumerated _ Hen).
  unfold mbind, Go_bind. rewrite (Recipients_resolved db s w Hall).
  rewrite mark_pending_run.
  - by rewrite RandomString_run.
  - apply Forall_forall. intros p Hin.
    pose proof (proj1 (Forall_forall _ _) Hall p Hin) as (cell & Hp & _).
    simpl. by rewrite (resolve_all_in _ _ _ _ _ cell Hin Hp).
Qed.

(** What a successful [CheckSharingCreation] changes and what it keeps: of
    the sharing, only [Owner] and [SharingID] are assigned; an association
    object of the slice gets the fetched entity and the pending status and
    keeps its tokens and its recipient reference; every other object is
    untouched; 32 letters, no more, are drawn from the random source. *)
Theorem CheckSharingCreation_frame db s w :
  enumerated (SharingType s) →
  Forall (resolves (mem w) (couch w) db) (SRecipients s) →
  ∃ s' w',
    CheckSharingCreation db s w = Returns (s', None) w' ∧
    SID s' = SID s ∧ SRev s' = SRev s ∧ Type_ s' = Type_ s ∧
    Desc s' = Desc s ∧ SharingType s' = SharingType s ∧
    Permissions s' = Permissions s ∧ SRecipients s' = SRecipients s ∧
    seed w' = (random_letters 32 (seed w)).2 ∧
    (∀ q, q ∉ SRecipients s → mem w' !! q = mem w !! q) ∧
    (∀ p cell, p ∈ SRecipients s → mem w !! p = Some cell →
       mem w' !! p =
       Some (mkSharingRecipient consts.PendingSharingStatus
               (AccessToken cell) (RefreshToken cell) (RefRecipient cell)
               (Some (fetched (couch w) db
                              (jsonapi.ID (RefRecipient cell))).1))).
Proof.
  intros Hen Hall. eexists _, _.
  split; [by apply CheckSharingCreation_run|]. simpl.
  split_and!; try done.
  - intros q Hq.
    by rewrite pending_all_lookup, decide_False, resolve_all_notin.
  - intros p cell Hin Hp.
    by rewrite pending_all_lookup, decide_True,
               (resolve_all_in _ _ _ _ _ cell Hin Hp).
Qed.

(** On a sharing whose association pointers are non-nil,
    [CheckSharingCreation] does not panic; it succeeds exactly when the
    sharing type is enumerated and every association resolves; otherwise
    it hands the sharing back as it was, with the bad-sharing-type error,
    the recipient-does-not-exist error, or an error of the store that is
    not its not-found condition. *)
Theorem CheckSharingCreation_outcomes db s w :
  Forall (λ p, is_Some (mem w !! p)) (SRecipients s) →
  ∃ s' err w',
    CheckSharingCreation db s w = Returns (s', err) w' ∧
    (err = None ↔
     enumerated (SharingType s) ∧
     Forall (resolves (mem w) (couch w) db) (SRecipients s)) ∧
    (∀ e, err = Some e →
       s' = s ∧
       (e = ErrBadSharingType ∨ e = ErrRecipientDoesNotExist ∨
        ∃ f, e = Foreign f ∧ not_found f = false)).
Proof.
  intros Hmem.
  destruct (CheckSharingType_cases (SharingType s)) as [[Hen Hty]|[Hen Hty]].
  - destruct (first_failure (mem w) (couch w) db (SRecipients s))
      as [Hall|(pre & p & post & Hs & Hpre & Hp)].
    + eexists _, _, _. split; [by apply CheckSharingCreation_run|].
      split; [done|]. by intros e.
    + assert (is_Some (mem w !! p)) as [cell Hcell].
      { apply (proj1 (Forall_forall _ _) Hmem). rewrite Hs.
        apply elem_of_app. right. apply list_elem_of_here. }
      destruct (fetched (couch w) db (jsonapi.ID (RefRecipient cell))).2
        as [f|] eqn:Hf; [|destruct Hp; by exists cell].
      destruct (Recipients_fails db s w pre p post cell f Hs Hpre Hcell Hf)
        as (e' & He' & Hrun).
      unfold CheckSharingCreation. rewrite Hty. unfold mbind, Go_bind.
      rewrite Hrun. eexists _, _, _. split; [done|]. split.
      * split; [done|]. intros [_ Hall]. destruct Hp.
        apply (proj1 (Forall_forall _ _) Hall). rewrite Hs.
        apply elem_of_app. right. apply list_elem_of_here.
      * intros e [= <-]. split; [done|]. right. unfold remap in He'.
        destruct (not_found f) eqn:Hnf; injection He' as <-.
        -- by left.
        -- right. by exists f.
  - rewrite (CheckSharingCreation_type_first db s w Hen).
    eexists _, _, _. split; [done|]. split.
    + split; [done|]. by intros [? _].
    + intros e [= <-]. split; [done|]. by left.
Qed.

(** *** More on incoming sharing requests *)

(** A scope string that does not parse: with the state token, the sharing
    type and a non-empty scope in order, the error of the parser is returned
    as it is, with a nil sharing (whatever permission set came with the
    error), and the store is not called. *)
Theorem CreateSharingRequest_scope_error
    db (desc state sharingType scope : string) perms e w :
  state ≠ "" → enumerated sharingType → scope ≠ "" →
  UnmarshalScopeString scope = (perms, Some e) →
  CreateSharingRequest db desc state sharingType scope w =
  Returns (None, Some (Foreign e)) w.
Proof.
  intros Hstate Hen Hscope Hparse. unfold CreateSharingRequest.
  rewrite decide_False by done.
  rewrite (CheckSharingType_enumerated _ Hen), decide_False by done.
  by rewrite Hparse.
Qed.

(** [CreateSharingRequest] never panics, never reads the store and never
    touches the association objects or the random source.  Either it returns
    a nil sharing with an error and the world is untouched, or it returns a
    sharing and has made exactly one store call, the insertion of a document
    that is not owned, has no recipient, carries the non-empty state token
    as its sharing id and an enumerated sharing type. *)
Theorem CreateSharingRequest_footprint
    db (desc state sharingType scope : string) w :
  ∃ r w',
    CreateSharingRequest db desc state sharingType scope w = Returns r w' ∧
    mem w' = mem w ∧ seed w' = seed w ∧
    ((r.1 = None ∧ is_Some r.2 ∧ w' = w) ∨
     (∃ sharing doc,
        r.1 = Some sharing ∧
        calls w' = calls w ++ [CallCreateDoc db (doc, [])] ∧
        Owner doc = false ∧ SRecipients doc = [] ∧
        SharingID doc = state ∧ state ≠ "" ∧
        SharingType doc = sharingType ∧ enumerated sharingType ∧
        ID doc = "" ∧ DocType doc = consts_Sharings)).
Proof.
  unfold CreateSharingRequest.
  destruct (decide (state = "")) as [Hstate|Hstate].
  { eexists _, _. split; [done|]. split_and!; [done|done|]. left.
    by split_and!. }
  destruct (CheckSharingType_cases sharingType) as [[Hen ->]|[Hen ->]].
  - destruct (decide (scope = "")) as [Hscope|Hscope].
    { eexists _, _. split; [done|]. split_and!; [done|done|]. left.
      by split_and!. }
    destruct (UnmarshalScopeString scope) as [perms [e|]].
    + eexists _, _. split; [done|]. split_and!; [done|done|]. left.
      by split_and!.
    + unfold mbind, Go_bind. rewrite Create_run.
      eexists _, _. split; [done|]. simpl. split_and!; [done|done|]. right.
      eexists _, _. by split_and!.
  - eexists _, _. split; [done|]. split_and!; [done|done|]. left.
    by split_and!.
Qed.

End proofs.

(** ** The properties at work on the small platform *)

Import Demo.

Ltac cell_at := eexists; vm_compute; reflexivity.
Ltac it_resolves := eexists; split; vm_compute; reflexivity.
Ltac it_is_absent := eexists _, _; split_and!; vm_compute; reflexivity.

(** The ids "alice" and "bob" resolve; "ghost" is not in the store. *)
Lemma alice_bob_resolve :
  Forall (resolves (mem the_world) (couch the_world) the_db) [1; 2]%positive.
Proof. repeat constructor; it_resolves. Defined.

Lemma ghost_is_absent : absent (mem the_world) (couch the_world) the_db 3%positive.
Proof. it_is_absent. Defined.

(** C1 as stated fails: with a first association that resolves and a
    second one unknown to the store, [CheckSharingCreation] returns the
    recipient-does-not-exist error, yet the first association object has
    got its back-reference. *)
Lemma CheckSharingCreation_not_atomic :
  let s := one_shot [1; 3]%positive in
  Exists (absent (mem the_world) (couch the_world) the_db) (SRecipients s) ∧
  ∃ w', CheckSharingCreation the_db s the_world =
        Returns (s, Some ErrRecipientDoesNotExist) w' ∧
        back_reference (mem the_world) 1%positive = None ∧
        back_reference (mem w') 1%positive = Some alice ∧
        ¬ (∀ p, p ∈ SRecipients s →
             back_reference (mem w') p = back_reference (mem the_world) p).
Proof.
  split.
  - apply Exists_cons_tl, Exists_cons_hd. exact ghost_is_absent.
  - eexists. split; [vm_compute; reflexivity|].
    split; [vm_compute; reflexivity|]. split; [vm_compute; reflexivity|].
    intros Hsame. specialize (Hsame 1%positive (list_elem_of_here _ _)).
    vm_compute in Hsame. discriminate Hsame.
Qed.

Lemma CheckSharingCreation_failure_witness :
  let s := one_shot [1; 3; 2]%positive in
  ∃ e w' pre p post,
    CheckSharingCreation the_db s the_world = Returns (s, Some e) w' ∧
    couch w' = couch the_world ∧
    persisted <$> mem w' = persisted <$> mem the_world ∧
    SRecipients s = pre ++ p :: post ∧
    Forall (resolves (mem the_world) (couch the_world) the_db) pre ∧
    ¬ resolves (mem the_world) (couch the_world) the_db p ∧
    ∀ q, q ∉ pre → mem w' !! q = mem the_world !! q.
Proof.
  apply (CheckSharingCreation_failure the_db (one_shot [1; 3; 2]%positive)
           the_world).
  - repeat constructor; cell_at.
  - apply Exists_cons_tl, Exists_cons_hd. exact ghost_is_absent.
Defined.

(** C2 as stated fails: every association resolves, but the sharing type
    is not enumerated, and [CheckSharingCreation] returns the
    bad-sharing-type error with nothing set. *)
Lemma CheckSharingCreation_bad_type :
  let s := sharing_of "bad-type" [1; 2]%positive in
  Forall (resolves (mem the_world) (couch the_world) the_db) (SRecipients s) ∧
  CheckSharingCreation the_db s the_world =
  Returns (s, Some ErrBadSharingType) the_world ∧
  Owner s = false.
Proof.
  split; [exact alice_bob_resolve|]. split; vm_compute; reflexivity.
Qed.

Lemma CheckSharingCreation_success_witness :
  let s := one_shot [1; 2]%positive in
  ∃ s' w',
    CheckSharingCreation the_db s the_world = Returns (s', None) w' ∧
    Owner s' = true ∧
    SharingID s' = (random_letters 32 (seed the_world)).1 ∧
    String.length (SharingID s') = 32 ∧ SharingID s' ≠ "" ∧
    SRecipients s' = SRecipients s ∧
    (∀ p, p ∈ SRecipients s' →
       ∃ cell, mem w' !! p = Some cell ∧
               Status cell = consts.PendingSharingStatus) ∧
    couch w' = couch the_world ∧
    ∃ reads, calls w' = calls the_world ++ reads ∧
             Forall (λ call, is_read call = true) reads.
Proof.
  apply (CheckSharingCreation_success the_db (one_shot [1; 2]%positive)
           the_world).
  - left. reflexivity.
  - exact alice_bob_resolve.
Defined.


Lemma CreateSharingRequest_valid_witness :
  let doc := mkSharing "" "" "" false "photos" "state-1" "one-shot"
                       (Some ["album"]) [] in
  let answer := couch_create (couch the_world) the_db (doc, []) in
  ∃ sharing,
    CreateSharingRequest the_db "photos" "state-1" "one-shot" "album"
                         the_world =
    Returns (Some sharing, Foreign <$> answer.2)
            (mkWorld (mem the_world) answer.1.1
                     (calls the_world ++ [CallCreateDoc the_db (doc, [])])
                     (seed the_world)) ∧
    sharing = foldl apply_setter doc answer.1.2 ∧
    Owner sharing = false ∧ SharingID sharing = "state-1" ∧
    Desc sharing = "photos" ∧ Permissions sharing = Some ["album"] ∧
    SharingType sharing = "one-shot" ∧ SRecipients sharing = [].
Proof.
  apply (CreateSharingRequest_valid the_db "photos" "state-1" "one-shot"
           "album" (Some ["album"]) the_world).
  - discriminate.
  - left. reflexivity.
  - discriminate.
  - reflexivity.
Defined.

Lemma CreateSharingRequest_rejects_before_store_witness :
  ∃ e, CreateSharingRequest the_db "photos" "" "bad-type" "" the_world =
       Returns (None, Some e) the_world ∧
       e ∈ [ErrMissingState; ErrBadSharingType; ErrMissingScope].
Proof.
  apply (CreateSharingRequest_rejects_before_store the_db "photos" ""
           "bad-type" "" the_world).
  left. reflexivity.
Defined.

Lemma Recipients_preserves_order_witness :
  let s := one_shot [2; 1]%positive in
  ∃ s' sRecipients w',
    Recipients the_db s the_world = Returns (s', sRecipients, None) w' ∧
    SRecipients s' = sRecipients ∧
    length sRecipients = length (SRecipients s) ∧
    ∀ i p, SRecipients s !! i = Some p →
      sRecipients !! i = Some p ∧
      ∃ cell cell',
        mem the_world !! p = Some cell ∧ mem w' !! p = Some cell' ∧
        RefRecipient cell' = RefRecipient cell ∧
        recipient cell' =
        Some (fetched (couch the_world) the_db
                      (jsonapi.ID (RefRecipient cell))).1.
Proof.
  apply (Recipients_preserves_order the_db (one_shot [2; 1]%positive)
           the_world).
  repeat constructor; it_resolves.
Defined.

Lemma Recipients_fails_fast_witness :
  let s := one_shot [1; 3; 2]%positive in
  ∃ doc err w1 w',
    GetRecipient the_db "ghost" the_world = Returns (doc, Some err) w1 ∧
    Recipients the_db s the_world = Returns (s, [], Some err) w' ∧
    calls w' =
    calls the_world ++
    fetch_calls the_db (mem the_world) ([1%positive] ++ [3%positive]) ∧
    couch w' = couch the_world.
Proof.
  apply (proj2 (GetRecipient_remaps_and_Recipients_fails_fast the_db)
           (one_shot [1; 3; 2]%positive) the_world [1%positive] 3%positive
           [2%positive] (assoc "ghost") NotFound).
  - reflexivity.
  - repeat constructor; it_resolves.
  - vm_compute. reflexivity.
  - vm_compute. reflexivity.
Defined.

Lemma populated_after_resolution :
  Forall (populated (mem resolved_world)) [1; 2]%positive.
Proof. repeat constructor; eexists _, _; split; vm_compute; reflexivity. Defined.

Lemma Relationships_match_Included_witness :
  let s := one_shot [1; 2]%positive in
  ∃ data rs,
    Relationships s resolved_world =
    Returns {[ "recipients" := jsonapi.mkRelationship data ]}
            resolved_world ∧
    Included s resolved_world = Returns (Some <$> rs) resolved_world ∧
    length data = length (SRecipients s) ∧
    length rs = length (SRecipients s) ∧
    (∀ i p, SRecipients s !! i = Some p →
       back_reference (mem resolved_world) p = rs !! i) ∧
    (∀ i r, rs !! i = Some r →
       ∃ ri, data !! i = Some ri ∧
             jsonapi.ID ri = ID r ∧ jsonapi.Type_ ri = DocType r).
Proof.
  apply (Relationships_match_Included (one_shot [1; 2]%positive)
           resolved_world).
  exact populated_after_resolution.
Defined.

Lemma serializers_total_witness :
  let s := one_shot [1; 2]%positive in
  (∃ groups included,
     Relationships s resolved_world = Returns groups resolved_world ∧
     Included s resolved_world = Returns included resolved_world ∧
     dom groups = ({[ "recipients" ]} : gset string)) ∧
  (SRecipients s = [] →
   Relationships s resolved_world =
   Returns {[ "recipients" := jsonapi.mkRelationship [] ]} resolved_world ∧
   Included s resolved_world = Returns [] resolved_world).
Proof.
  apply (serializers_total (one_shot [1; 2]%positive) resolved_world).
  exact populated_after_resolution.
Defined.

(** Outside the precondition of the serializers: an association that has
    not been resolved makes [Relationships] panic on [r.ID()], while
    [Included] returns the nil entity. *)
Lemma Relationships_panics_unresolved :
  Relationships (one_shot [1]%positive) the_world = Panics ∧
  Included (one_shot [1]%positive) the_world = Returns [None] the_world.
Proof. split; vm_compute; reflexivity. Qed.

(** *** The further properties at work *)

Lemma Recipients_footprint_witness :
  let s := one_shot [2; 1; 2]%positive in
  ∃ w',
    Recipients the_db s the_world = Returns (s, SRecipients s, None) w' ∧
    calls w' =
    calls the_world ++
    ((λ p, CallGetDoc the_db consts_Recipients (ref_id (mem the_world) p))
       <$> SRecipients s) ∧
    couch w' = couch the_world ∧ seed w' = seed the_world ∧
    (∀ q, q ∉ SRecipients s → mem w' !! q = mem the_world !! q) ∧
    json (mem w') s = json (mem the_world) s.
Proof.
  apply (Recipients_footprint the_db (one_shot [2; 1; 2]%positive)
           the_world).
  repeat constructor; it_resolves.
Defined.

Lemma Recipients_idempotent_witness :
  let s := one_shot [1; 2]%positive in
  ∃ w1 w2,
    Recipients the_db s the_world = Returns (s, SRecipients s, None) w1 ∧
    Recipients the_db s w1 = Returns (s, SRecipients s, None) w2 ∧
    mem w2 = mem w1 ∧ couch w2 = couch w1.
Proof.
  apply (Recipients_idempotent the_db (one_shot [1; 2]%positive) the_world).
  exact alice_bob_resolve.
Defined.

Lemma Recipients_nil_association_witness :
  let s := one_shot [1; 9; 2]%positive in
  Recipients the_db s the_world = Panics ∧
  (enumerated (SharingType s) →
   CheckSharingCreation the_db s the_world = Panics).
Proof.
  apply (Recipients_nil_association the_db (one_shot [1; 9; 2]%positive)
           the_world [1%positive] 9%positive [2%positive]).
  - reflexivity.
  - repeat constructor; it_resolves.
  - vm_compute. reflexivity.
Defined.

Lemma Recipients_then_serializers_witness :
  let s := one_shot [2; 1]%positive in
  let answers :=
    (λ p, (fetched (couch the_world) the_db
                   (ref_id (mem the_world) p)).1) <$> SRecipients s in
  ∃ s' w',
    Recipients the_db s the_world = Returns (s', SRecipients s', None) w' ∧
    Relationships s' w' =
    Returns {[ "recipients" :=
               jsonapi.mkRelationship (identifier <$> answers) ]} w' ∧
    Included s' w' = Returns (Some <$> answers) w'.
Proof.
  apply (Recipients_then_serializers the_db (one_shot [2; 1]%positive)
           the_world).
  repeat constructor; it_resolves.
Defined.

Lemma CheckSharingCreation_type_first_witness :
  CheckSharingCreation the_db (sharing_of "One-Shot" [9; 3]%positive)
                       the_world =
  Returns (sharing_of "One-Shot" [9; 3]%positive, Some ErrBadSharingType)
          the_world.
Proof.
  apply (CheckSharingCreation_type_first the_db
           (sharing_of "One-Shot" [9; 3]%positive) the_world).
  intros [Hty|[Hty|Hty]]; discriminate Hty.
Defined.

Lemma CheckSharingCreation_frame_witness :
  let s := one_shot [1; 2]%positive in
  ∃ s' w',
    CheckSharingCreation the_db s the_world = Returns (s', None) w' ∧
    SID s' = SID s ∧ SRev s' = SRev s ∧ Type_ s' = Type_ s ∧
    Desc s' = Desc s ∧ SharingType s' = SharingType s ∧
    Permissions s' = Permissions s ∧ SRecipients s' = SRecipients s ∧
    seed w' = (random_letters 32 (seed the_world)).2 ∧
    (∀ q, q ∉ SRecipients s → mem w' !! q = mem the_world !! q) ∧
    (∀ p cell, p ∈ SRecipients s → mem the_world !! p = Some cell →
       mem w' !! p =
       Some (mkSharingRecipient consts.PendingSharingStatus
               (AccessToken cell) (RefreshToken cell) (RefRecipient cell)
               (Some (fetched (couch the_world) the_db
                              (jsonapi.ID (RefRecipient cell))).1))).
Proof.
  apply (CheckSharingCreation_frame the_db (one_shot [1; 2]%positive)
           the_world).
  - left. reflexivity.
  - exact alice_bob_resolve.
Defined.

Lemma CheckSharingCreation_outcomes_witness :
  let s := one_shot [1; 4; 3]%positive in
  ∃ s' err w',
    CheckSharingCreation the_db s the_world = Returns (s', err) w' ∧
    (err = None ↔
     enumerated (SharingType s) ∧
     Forall (resolves (mem the_world) (couch the_world) the_db)
            (SRecipients s)) ∧
    (∀ e, err = Some e →
       s' = s ∧
       (e = ErrBadSharingType ∨ e = ErrRecipientDoesNotExist ∨
        ∃ f, e = Foreign f ∧ not_found f = false)).
Proof.
  apply (CheckSharingCreation_outcomes the_db (one_shot [1; 4; 3]%positive)
           the_world).
  repeat constructor; cell_at.
Defined.

Lemma CreateSharingRequest_scope_error_witness :
  CreateSharingRequest the_db "photos" "state-1" "master-slave" "?"
                       the_world =
  Returns (None, Some (Foreign BadScope)) the_world.
Proof.
  apply (CreateSharingRequest_scope_error the_db "photos" "state-1"
           "master-slave" "?" None BadScope the_world).
  - discriminate.
  - right. left. reflexivity.
  - discriminate.
  - reflexivity.
Defined.
